(** * ESP_ticker: the debug shim (Debug.h) and the global declarations
      (ESP_ticker.h)

    The two headers are declarative: Debug.h defines seven function-like
    macros over the [Serial] object, ESP_ticker.h defines object-like macros
    and the global variables of the sketch.  The development embeds

    - the macro table of Debug.h, with the preprocessor's expansion
      (expansion of the arguments, substitution, rescanning, no re-expansion
      of a macro inside its own expansion) and the evaluation of the
      expanded GNU statement expressions, arguments first, against the
      sketch's globals and a serial transport;
    - the [#define] table and the declaration list of ESP_ticker.h, with the
      initialisation of every global at startup.
*)

From Stdlib Require Import String Ascii List ZArith Lia Bool DecimalString.
Import ListNotations.
Open Scope string_scope.

Set Implicit Arguments.
Set Warnings "-register-all".

(** All-or-nothing map: the first failure fails the whole list. *)
Fixpoint mapM {X Y : Type} (f : X -> option Y) (l : list X) : option (list Y) :=
  match l with
  | [] => Some []
  | x :: rest =>
      match f x, mapM f rest with
      | Some y, Some ys => Some (y :: ys)
      | _, _ => None
      end
  end.

(** Computations on a state run one after the other, from the left. *)
Fixpoint in_turn {St V : Type} (cs : list (St -> option (V * St))) (s : St)
  : option (list V * St) :=
  match cs with
  | [] => Some ([], s)
  | c :: rest =>
      match c s with
      | Some (v, s1) =>
          match in_turn rest s1 with
          | Some (vs, s2) => Some (v :: vs, s2)
          | None => None
          end
      | None => None
      end
  end.

(** The same from the left or from the right; the values come back by
    position either way. *)
Definition in_order {St V : Type} (rtl : bool)
           (cs : list (St -> option (V * St))) (s : St) : option (list V * St) :=
  if rtl then
    match in_turn (rev cs) s with
    | Some (vs, s') => Some (rev vs, s')
    | None => None
    end
  else in_turn cs s.

(* ------------------------------------------------------------------ *)
(** ** Debug.h                                                          *)
(* ------------------------------------------------------------------ *)

Module DebugH.

Section Macros.

(** The argument expressions of the sketch that hold no macro invocation.
    The preprocessor moves them around as token sequences and never looks
    inside: the type is a parameter. *)
Variable A : Type.

(** What the sketch writes where a macro takes an argument: an expression
    without macro invocation, or [name(args)], which is a macro invocation
    or a function call and whose arguments are of this kind again. *)
Inductive term : Type :=
| Arg (a : A)
| Call (name : string) (args : list term).

(** The text after preprocessing: argument expressions, method calls, calls
    of names that are not (or no longer) macros, and statement expressions
    [({ e1; ...; en; })]. *)
Inductive expr : Type :=
| EArg (a : A)
| ECall (obj meth : string) (args : list expr)
| EFun (name : string) (args : list expr)
| EStmtExpr (body : list expr).

(** Parameter list of a function-like macro: [(...)] or [()]. *)
Inductive params : Type :=
| Variadic
| NoParams.

(** Argument list of a call inside a macro body: [__VA_ARGS__] or the
    tokens written there. *)
Inductive call_args : Type :=
| VA_ARGS
| Args (l : list expr).

(** One statement of a macro body: [obj.meth(a);] or [name(a);]. *)
Inductive stmt : Type :=
| Method (obj meth : string) (a : call_args)
| Invoke (name : string) (a : call_args).

(** [#define m_name m_params ({ m_body })] *)
Record macro : Type := Define {
  m_name : string;
  m_params : params;
  m_body : list stmt
}.

(** The macros of Debug.h, in the order of the file. *)
Definition Debug_h : list macro :=
  [ Define "Debug"      Variadic [ Method "Serial" "print"   VA_ARGS ];
    Define "Debugln"    Variadic [ Method "Serial" "println" VA_ARGS ];
    Define "Debugf"     Variadic [ Method "Serial" "printf"  VA_ARGS ];
    Define "DebugFlush" NoParams [ Method "Serial" "flush"   (Args []) ];
    Define "DebugT"     Variadic [ Invoke "Debug"   VA_ARGS ];
    Define "DebugTln"   Variadic [ Invoke "Debugln" VA_ARGS ];
    Define "DebugTf"    Variadic [ Invoke "Debugf"  VA_ARGS ] ].

Fixpoint find_macro (name : string) (table : list macro) : option macro :=
  match table with
  | [] => None
  | d :: rest => if String.eqb (m_name d) name then Some d
                 else find_macro name rest
  end.

(** A macro defined with [()] takes no argument, one defined with [(...)]
    any number of them. *)
Definition accepts {X : Type} (p : params) (args : list X) : bool :=
  match p, args with
  | Variadic, _ => true
  | NoParams, [] => true
  | NoParams, _ :: _ => false
  end.

Definition subst (a : call_args) (va : list expr) : list expr :=
  match a with
  | VA_ARGS => va
  | Args l => l
  end.

(** Expansion of one statement of a body whose [__VA_ARGS__] is [va], the
    arguments of the invocation after their own expansion.  [hide] holds
    the macros under expansion: their names are not expanded again.
    [None] is a preprocessing error (wrong number of arguments) or
    exhausted fuel. *)
Fixpoint expand_stmt (fuel : nat) (hide : list string) (va : list expr)
         (s : stmt) : option expr :=
  match fuel with
  | O => None
  | S fuel' =>
      match s with
      | Method obj meth a => Some (ECall obj meth (subst a va))
      | Invoke name a =>
          let args := subst a va in
          if existsb (String.eqb name) hide then Some (EFun name args)
          else
            match find_macro name Debug_h with
            | None => Some (EFun name args)
            | Some d =>
                if accepts (m_params d) args then
                  option_map EStmtExpr
                    (mapM (expand_stmt fuel' (name :: hide) args) (m_body d))
                else None
            end
      end
  end.

(** [name(args)] where the arguments are expanded already. *)
Definition invoke (name : string) (args : list expr) : option expr :=
  expand_stmt (S (length Debug_h)) [] [] (Invoke name (Args args)).

(** The preprocessor on what the sketch writes.  The arguments of an
    invocation are macro-expanded first, each on its own, and substituted
    expanded; an error in an argument is an error of the whole. *)
Fixpoint preprocess (t : term) : option expr :=
  match t with
  | Arg a => Some (EArg a)
  | Call name args =>
      match mapM preprocess args with
      | Some args' => invoke name args'
      | None => None
      end
  end.

(** [name(args)] written in the sketch with arguments that hold no macro
    invocation. *)
Definition expand (name : string) (args : list A) : option expr :=
  preprocess (Call name (map Arg args)).

(** The invocation [name(args)] has the number of arguments that the
    definition of [name] takes. *)
Definition accepted (name : string) (args : list A) : bool :=
  match find_macro name Debug_h with
  | Some d => accepts (m_params d) args
  | None => false
  end.

(** The calls left in a preprocessed expression, those of the arguments of
    a call before the call. *)
Fixpoint calls (e : expr) : list expr :=
  match e with
  | EArg _ => []
  | ECall _ _ args => flat_map calls args ++ [e]
  | EFun _ args => flat_map calls args ++ [e]
  | EStmtExpr body => flat_map calls body
  end.

(** *** The serial transport

    [Serial] is an object of the board's core library; its class is not
    part of the sketch and is a parameter here.  The shim uses four of its
    methods.  The core declares the three writers with a result (the number
    of bytes written, a [size_t]) and [flush] as [void]: the writers return
    a [t_ret], whatever that type is, and [flush] returns nothing. *)
Record Transport : Type := {
  port : Type;
  t_ret : Type;
  t_print : list A -> port -> t_ret * port;
  t_println : list A -> port -> t_ret * port;
  t_printf : list A -> port -> t_ret * port;
  t_flush : port -> port
}.

Variable T : Transport.

(** Result of a call: [None] is [void]. *)
Definition result : Type := option (t_ret T).

Definition returning (r : t_ret T * port T) : result * port T :=
  (Some (fst r), snd r).

(** [Serial.meth(args)] on the values of the arguments. *)
Definition serial_call (meth : string) (args : list A) (p : port T)
  : option (result * port T) :=
  if String.eqb meth "print" then Some (returning (t_print T args p))
  else if String.eqb meth "println" then Some (returning (t_println T args p))
  else if String.eqb meth "printf" then Some (returning (t_printf T args p))
  else if String.eqb meth "flush" then
    match args with
    | [] => Some (None, t_flush T p)
    | _ :: _ => None
    end
  else None.

End Macros.

Arguments VA_ARGS {A}.
Arguments Debug_h {A}.

(** A transport for tests: the port is attached (the UART was opened) or
    not, and records the argument lists that went out on the wire.  The
    writers return the number of bytes written, as the core's writers do:
    the length of the text when the port is attached, 0 when it is not. *)
Record console : Type := {
  attached : bool;
  wire : list (string * list string)
}.

Definition text_length (args : list string) : nat :=
  fold_right (fun s n => String.length s + n) 0 args.

Definition console_write (meth : string) (extra : nat) (args : list string)
           (c : console) : nat * console :=
  if attached c
  then (text_length args + extra,
        {| attached := true; wire := (wire c ++ [(meth, args)])%list |})
  else (0, c).

Definition console_transport : Transport string := {|
  port := console;
  t_ret := nat;
  t_print := console_write "print" 0;
  t_println := console_write "println" 2;
  t_printf := console_write "printf" 0;
  t_flush := fun c => c
|}.

End DebugH.

(* ------------------------------------------------------------------ *)
(** ** ESP_ticker.h                                                     *)
(* ------------------------------------------------------------------ *)

Module TickerH.

(** The members of the display library's [textEffect_t] that the header
    names, in the order in which it names them (four of them only in
    commented-out lines). *)
Inductive textEffect_t : Type :=
| PA_PRINT | PA_SCAN_HORIZ | PA_SCROLL_LEFT | PA_WIPE | PA_SCROLL_UP_LEFT
| PA_SCROLL_UP | PA_OPENING_CURSOR | PA_GROW_UP | PA_MESH
| PA_SCROLL_UP_RIGHT | PA_BLINDS | PA_CLOSING | PA_RANDOM | PA_GROW_DOWN
| PA_SCAN_VERT | PA_SCROLL_DOWN_LEFT | PA_WIPE_CURSOR | PA_DISSOLVE
| PA_OPENING | PA_CLOSING_CURSOR | PA_SCROLL_DOWN_RIGHT | PA_SCROLL_RIGHT
| PA_SLICE | PA_SCROLL_DOWN.

(** Replacement text of an object-like macro: every [#define] of the header
    is one token, a number, a string or a scoped name. *)
Inductive literal : Type :=
| LInt (z : Z)
| LStr (s : string)
| LScoped (ns id : string).

(** The object-like macros, in the order of the file (the commented-out
    ones are absent). *)
Definition defines : list (string * literal) :=
  [ ("HARDWARE_TYPE",   LScoped "MD_MAX72XX" "FC16_HW");
    ("MAX_DEVICES",     LInt 8);
    ("MAX_SPEED",       LInt 50);
    ("CS_PIN",          LInt 15);
    ("SETTINGS_FILE",   LStr "/settings.ini");
    ("LOCAL_SIZE",      LInt 255);
    ("NEWS_SIZE",       LInt 512);
    ("JSON_BUFF_MAX",   LInt 255);
    ("MAX_NO_NO_WORDS", LInt 20) ].

Fixpoint assoc {V : Type} (name : string) (l : list (string * V)) : option V :=
  match l with
  | [] => None
  | (k, v) :: rest => if String.eqb k name then Some v else assoc name rest
  end.

(** Expressions in array sizes, initialisers and constructor arguments. *)
Inductive expr : Type :=
| Lit (l : literal)
| Bool (b : bool)
| Name (id : string)
| Plus (a b : expr)
| Call (f : string)
| Effect (e : textEffect_t).

Inductive ctype : Type :=
| t_bool | t_char | t_uint8_t | t_uint16_t | t_uint32_t | t_int16_t
| t_String | t_const_char_ptr | t_textEffect_t | t_time_t
| t_struct (tag : string) | t_class (name : string).

(** [name], [name[size]] or [name[]] *)
Inductive dim : Type :=
| Scalar
| Array (size : option expr).

(** nothing, [= e], a brace list (with or without [=]), or constructor
    arguments ([name(args)] and [name = T(args)]). *)
Inductive initializer : Type :=
| NoInit
| Assign (e : expr)
| Braces (l : list expr)
| Ctor (args : list expr).

Record decl : Type := Global {
  d_type : ctype;
  d_name : string;
  d_dim : dim;
  d_init : initializer
}.

Definition int (z : Z) : expr := Lit (LInt z).
Definition str (s : string) : expr := Lit (LStr s).
Definition sized (e : expr) : dim := Array (Some e).

(** The global variables, in the order of the file; a declaration with
    several declarators is one entry per declarator. *)
Definition ESP_ticker_h : list decl :=
  [ Global (t_class "MD_Parola") "P" Scalar
      (Ctor [Name "HARDWARE_TYPE"; Name "CS_PIN"; Name "MAX_DEVICES"]);
    Global (t_class "ESP8266WebServer") "httpServer" Scalar (Ctor [int 80]);
    Global t_uint8_t "inFX" Scalar NoInit;
    Global t_uint8_t "outFX" Scalar NoInit;
    Global t_textEffect_t "effect" (Array None)
      (Braces
         [ Effect PA_PRINT;
           Effect PA_SCROLL_LEFT;
           Effect PA_WIPE;
           Effect PA_SCROLL_UP_LEFT;
           Effect PA_SCROLL_UP;
           Effect PA_OPENING_CURSOR;
           Effect PA_GROW_UP;
           Effect PA_MESH;
           Effect PA_SCROLL_UP_RIGHT;
           Effect PA_CLOSING;
           Effect PA_RANDOM;
           Effect PA_GROW_DOWN;
           Effect PA_SCAN_VERT;
           Effect PA_SCROLL_DOWN_LEFT;
           Effect PA_WIPE_CURSOR;
           Effect PA_OPENING;
           Effect PA_CLOSING_CURSOR;
           Effect PA_SCROLL_DOWN_RIGHT;
           Effect PA_SCROLL_RIGHT;
           Effect PA_SCROLL_DOWN ]);
    Global t_bool "Verbose" Scalar (Assign (Bool false));
    Global t_char "cDate" (sized (int 15)) NoInit;
    Global t_char "cTime" (sized (int 10)) NoInit;
    Global t_uint32_t "nrReboots" Scalar NoInit;
    Global t_char "cMsg" (sized (Name "NEWS_SIZE")) NoInit;
    Global t_char "tempMessage" (sized (Name "LOCAL_SIZE")) (Assign (str ""));
    Global t_uint8_t "msgType" Scalar NoInit;
    Global t_char "actMessage" (sized (Name "NEWS_SIZE")) NoInit;
    Global t_char "timeMsg" (sized (int 20)) NoInit;
    Global t_char "onTickerMessage" (sized (Name "LOCAL_SIZE")) (Braces []);
    Global t_char "fileMessage" (sized (Name "LOCAL_SIZE")) NoInit;
    Global t_uint8_t "newsMsgID" Scalar (Assign (int 0));
    Global t_uint8_t "localMsgID" Scalar (Assign (int 0));
    Global t_int16_t "valueLDR" Scalar NoInit;
    Global t_int16_t "valueIntensity" Scalar NoInit;
    Global t_char "fChar" (sized (int 10)) NoInit;
    Global t_String "lastReset" Scalar (Assign (str ""));
    Global t_uint32_t "timeTimer" Scalar (Assign (int 0));
    Global t_uint32_t "ntpTimer" Scalar
      (Assign (Plus (Call "millis") (int 30000)));
    Global t_uint32_t "weerTimer" Scalar (Assign (int 0));
    Global t_uint32_t "newsapiTimer" Scalar (Assign (int 0));
    Global t_uint32_t "revisionTimer" Scalar (Assign (int 0));
    Global t_String "noWords"
      (sized (Plus (Name "MAX_NO_NO_WORDS") (int 1))) NoInit;
    Global t_char "settingHostname" (sized (int 41)) NoInit;
    Global t_char "settingNewsNoWords" (sized (Name "LOCAL_SIZE")) NoInit;
    Global t_uint8_t "settingLocalMaxMsg" Scalar NoInit;
    Global t_uint8_t "settingTextSpeed" Scalar NoInit;
    Global t_uint8_t "settingMaxIntensity" Scalar NoInit;
    Global t_uint16_t "settingLDRlowOffset" Scalar NoInit;
    Global t_uint16_t "settingLDRhighOffset" Scalar NoInit;
    Global t_char "settingWeerLiveAUTH" (sized (int 51)) NoInit;
    Global t_char "settingWeerLiveLocation" (sized (int 51)) NoInit;
    Global t_uint8_t "settingWeerLiveInterval" Scalar NoInit;
    Global t_char "settingNewsAUTH" (sized (int 51)) NoInit;
    Global t_uint8_t "settingNewsInterval" Scalar NoInit;
    Global t_uint8_t "settingNewsMaxMsg" Scalar NoInit;
    Global t_bool "LittleFSmounted" Scalar (Assign (Bool false));
    Global (t_class "FSInfo") "LittleFSinfo" Scalar NoInit;
    Global t_time_t "now" Scalar NoInit;
    Global (t_struct "tm") "timeinfo" Scalar NoInit;
    Global t_bool "timeSynced" Scalar (Assign (Bool false));
    Global (t_class "TimeSyncClass") "timeSync" Scalar NoInit;
    Global t_const_char_ptr "weekDayName" (Array None)
      (Braces
         [ str "Unknown"; str "Zondag"; str "Maandag"; str "Dinsdag";
           str "Woensdag"; str "Donderdag"; str "Vrijdag"; str "Zaterdag";
           str "Unknown" ]);
    Global t_const_char_ptr "flashMode" (Array None)
      (Braces [ str "QIO"; str "QOUT"; str "DIO"; str "DOUT"; str "Unknown" ])
  ]%Z.

(** *** Startup *)

Inductive value : Type :=
| VInt (z : Z)
| VStr (s : string)
| VSym (ns id : string)
| VBool (b : bool)
| VEffect (e : textEffect_t).

Definition literal_value (l : literal) : value :=
  match l with
  | LInt z => VInt z
  | LStr s => VStr s
  | LScoped ns id => VSym ns id
  end.

(** [clock] is what [millis()] returns when the initialiser runs. *)
Fixpoint eval_expr (clock : Z) (e : expr) : option value :=
  match e with
  | Lit l => Some (literal_value l)
  | Bool b => Some (VBool b)
  | Name id => option_map literal_value (assoc id defines)
  | Plus a b =>
      match eval_expr clock a, eval_expr clock b with
      | Some (VInt x), Some (VInt y) => Some (VInt (x + y))
      | _, _ => None
      end
  | Call f => if String.eqb f "millis" then Some (VInt clock) else None
  | Effect e => Some (VEffect e)
  end.

(** Width and signedness of the integer types. *)
Definition int_type (t : ctype) : option (Z * bool) :=
  match t with
  | t_uint8_t => Some (8, false)
  | t_uint16_t => Some (16, false)
  | t_uint32_t => Some (32, false)
  | t_int16_t => Some (16, true)
  | _ => None
  end%Z.

(** Conversion to an integer type of [bits] bits. *)
Definition wrap (bits : Z) (signed : bool) (z : Z) : Z :=
  if signed
  then (z + 2 ^ (bits - 1)) mod 2 ^ bits - 2 ^ (bits - 1)
  else z mod 2 ^ bits.

(** What a global holds. *)
Inductive cell : Type :=
| CInt (bits : Z) (signed : bool) (v : Z)
| CBool (b : bool)
| CChars (buf : list ascii)
| CString (s : string)
| CStrings (l : list string)
| CTable (l : list string)
| CEffects (l : list textEffect_t)
| CObject (cls : string) (args : list value)
| CZeroed.

Definition NUL : ascii := Ascii.zero.

Definition as_size (v : option value) : option nat :=
  match v with
  | Some (VInt z) => if (0 <? z)%Z then Some (Z.to_nat z) else None
  | _ => None
  end.

Definition as_string (v : option value) : option string :=
  match v with
  | Some (VStr s) => Some s
  | _ => None
  end.

Definition as_effect (v : option value) : option textEffect_t :=
  match v with
  | Some (VEffect e) => Some e
  | _ => None
  end.

(** [char name[n] = "s"]: the characters of [s], then NULs up to [n]; the
    literal and its terminator must fit. *)
Definition fill (n : nat) (s : string) : option (list ascii) :=
  let cs := list_ascii_of_string s in
  if Nat.ltb (length cs) n then Some (cs ++ repeat NUL (n - length cs))%list else None.

(** Initial content of one global.  Globals have static storage: without an
    initialiser they are zero-initialised (objects are default-constructed).
    [None]: the declaration is ill-formed. *)
Definition init_cell (clock : Z) (d : decl) : option cell :=
  match d_dim d with
  | Scalar =>
      match int_type (d_type d) with
      | Some (bits, signed) =>
          match d_init d with
          | NoInit => Some (CInt bits signed 0)
          | Assign e =>
              match eval_expr clock e with
              | Some (VInt z) => Some (CInt bits signed (wrap bits signed z))
              | _ => None
              end
          | _ => None
          end
      | None =>
          match d_type d, d_init d with
          | t_bool, NoInit => Some (CBool false)
          | t_bool, Assign e =>
              match eval_expr clock e with
              | Some (VBool b) => Some (CBool b)
              | _ => None
              end
          | t_String, NoInit => Some (CString "")
          | t_String, Assign e => option_map CString (as_string (eval_expr clock e))
          | t_class cls, NoInit => Some (CObject cls [])
          | t_class cls, Ctor args =>
              option_map (CObject cls) (mapM (eval_expr clock) args)
          | t_time_t, NoInit => Some CZeroed
          | t_struct _, NoInit => Some CZeroed
          | _, _ => None
          end
      end
  | Array (Some size) =>
      match as_size (eval_expr clock size) with
      | Some n =>
          match d_type d, d_init d with
          | t_char, NoInit => Some (CChars (repeat NUL n))
          | t_char, Braces [] => Some (CChars (repeat NUL n))
          | t_char, Assign e =>
              match as_string (eval_expr clock e) with
              | Some s => option_map CChars (fill n s)
              | None => None
              end
          | t_String, NoInit => Some (CStrings (repeat "" n))
          | _, _ => None
          end
      | None => None
      end
  | Array None =>
      match d_type d, d_init d with
      | t_textEffect_t, Braces l =>
          option_map CEffects (mapM (fun e => as_effect (eval_expr clock e)) l)
      | t_const_char_ptr, Braces l =>
          option_map CTable (mapM (fun e => as_string (eval_expr clock e)) l)
      | _, _ => None
      end
  end.

Definition store : Type := list (string * cell).

(** The globals after static and dynamic initialisation, in declaration
    order. *)
Definition startup (clock : Z) : option store :=
  mapM (fun d => option_map (pair (d_name d)) (init_cell clock d)) ESP_ticker_h.

Definition find_decl (name : string) : option decl :=
  find (fun d => String.eqb (d_name d) name) ESP_ticker_h.

(** Number of elements of a character buffer. *)
Definition capacity (c : cell) : option nat :=
  match c with
  | CChars buf => Some (length buf)
  | _ => None
  end.

Definition capacity_of (name : string) (g : store) : option nat :=
  match assoc name g with
  | Some c => capacity c
  | None => None
  end.

(** The size written between the brackets of a declaration. *)
Definition declared_size (d : decl) : option nat :=
  match d_dim d with
  | Array (Some size) => as_size (eval_expr 0 size)
  | _ => None
  end.

Definition is_char_buffer (d : decl) : bool :=
  match d_type d, d_dim d with
  | t_char, Array _ => true
  | _, _ => false
  end.

Definition has_initializer (d : decl) : bool :=
  match d_init d with
  | NoInit => false
  | _ => true
  end.

Definition instances_of (cls : string) : list decl :=
  filter (fun d => match d_type d with
                   | t_class c => String.eqb c cls
                   | _ => false
                   end) ESP_ticker_h.

End TickerH.

(* ------------------------------------------------------------------ *)
(** ** The sketch's state and the shim run on it                        *)
(* ------------------------------------------------------------------ *)

Section Machine.

Variable A : Type.
Variable T : DebugH.Transport A.

(** The globals of ESP_ticker.h and the serial port. *)
Record machine : Type := {
  globals : TickerH.store;
  Serial : DebugH.port T
}.

(** Value of an expression: nothing ([void]), the result of a writer, or
    the value of an argument expression. *)
Inductive val : Type :=
| Void
| Ret (r : DebugH.t_ret T)
| Val (a : A).

(** The sketch around the macros.  [c_eval] evaluates an argument
    expression in the caller's scope: it gives the value that is passed on
    and may change the globals and the port on the way, or does not
    evaluate.  [c_ret] is the result of a writer taken as an argument, where
    an overload takes it.  The order in which the arguments of one call are
    evaluated is the compiler's: from the left, or from the right when
    [c_rtl] is set. *)
Record Caller : Type := {
  c_eval : A -> machine -> option (A * machine);
  c_ret : DebugH.t_ret T -> option A;
  c_rtl : bool
}.

Variable C : Caller.

Definition of_result (r : DebugH.result T) : val :=
  match r with
  | Some x => Ret x
  | None => Void
  end.

(** A value passed as an argument; [void] is not one. *)
Definition as_arg (r : option (val * machine)) : option (A * machine) :=
  match r with
  | Some (Val a, m) => Some (a, m)
  | Some (Ret x, m) => option_map (fun a => (a, m)) (c_ret C x)
  | Some (Void, _) => None
  | None => None
  end.

(** [Serial.meth(vs)] on the machine: the port moves, the globals stay. *)
Definition call_serial (meth : string) (vs : list A) (m : machine)
  : option (val * machine) :=
  match DebugH.serial_call T meth vs (Serial m) with
  | Some (r, p) => Some (of_result r, {| globals := globals m; Serial := p |})
  | None => None
  end.

(** Evaluation.  A call evaluates its arguments, then calls with their
    values.  A statement expression runs its statements in order; its
    value is the value of the last one, and [void] when it is empty.  A
    function that is not of the fragment does not evaluate. *)
Fixpoint eval (e : DebugH.expr A) (m : machine) : option (val * machine) :=
  match e with
  | DebugH.EArg a =>
      match c_eval C a m with
      | Some (v, m') => Some (Val v, m')
      | None => None
      end
  | DebugH.ECall obj meth args =>
      if String.eqb obj "Serial" then
        match in_order (c_rtl C) (map (fun a m' => as_arg (eval a m')) args) m with
        | Some (vs, m1) => call_serial meth vs m1
        | None => None
        end
      else None
  | DebugH.EFun _ _ => None
  | DebugH.EStmtExpr body =>
      (fix eval_body (l : list (DebugH.expr A)) (acc : val * machine)
         : option (val * machine) :=
         match l with
         | [] => Some acc
         | s :: rest =>
             match eval s (snd acc) with
             | Some acc' => eval_body rest acc'
             | None => None
             end
         end) body (Void, m)
  end.

(** The arguments of one call: their values, by position. *)
Definition eval_args (args : list (DebugH.expr A)) (m : machine)
  : option (list A * machine) :=
  in_order (c_rtl C) (map (fun a m' => as_arg (eval a m')) args) m.

(** A statement of the sketch: preprocess, then evaluate. *)
Definition run (t : DebugH.term A) (m : machine) : option (val * machine) :=
  match DebugH.preprocess t with
  | Some e => eval e m
  | None => None
  end.

End Machine.

Arguments Void {A T}.
Arguments Ret {A T} r.
Arguments Val {A T} a.

Section Plain.

Variable A : Type.
Variable T : DebugH.Transport A.

(** The caller whose argument expressions are values: they stand for
    themselves and have no effect. *)
Definition plain : Caller T := {|
  c_eval := fun a m => Some (a, m);
  c_ret := fun _ => None;
  c_rtl := false
|}.

Definition as_result (v : val T) : option (DebugH.result T) :=
  match v with
  | Void => Some None
  | Ret r => Some (Some r)
  | Val _ => None
  end.

(** [name(args);] in the sketch, the arguments being values. *)
Definition run_macro (name : string) (args : list A) (m : machine T)
  : option (DebugH.result T * machine T) :=
  match run plain (DebugH.Call name (map (@DebugH.Arg A) args)) m with
  | Some (v, m') => option_map (fun r => (r, m')) (as_result v)
  | None => None
  end.

(** The underlying call made directly, [Serial.meth(args);]. *)
Definition run_call (meth : string) (args : list A) (m : machine T)
  : option (DebugH.result T * machine T) :=
  match DebugH.serial_call T meth args (Serial m) with
  | None => None
  | Some (r, p) => Some (r, {| globals := globals m; Serial := p |})
  end.

End Plain.

Arguments plain {A} T.
Arguments run_macro {A} T name args m.
Arguments run_call {A} T meth args m.

(* ------------------------------------------------------------------ *)
(** ** Vocabulary of the properties                                     *)
(* ------------------------------------------------------------------ *)

(** Each macro of the shim with the [Serial] method it stands for. *)
Definition shim : list (string * string) :=
  [ ("Debug", "print"); ("Debugln", "println"); ("Debugf", "printf");
    ("DebugFlush", "flush");
    ("DebugT", "print"); ("DebugTln", "println"); ("DebugTf", "printf") ].

(** No macro of the shim ever has a value: every run is [void]. *)
Definition shim_yields_nothing {A : Type} (T : DebugH.Transport A) : Prop :=
  forall name meth args (m : machine T) r m',
    In (name, meth) shim ->
    run_macro T name args m = Some (r, m') -> r = None.

(** What a run of a macro yields does not depend on the state of the
    port. *)
Definition transport_state_hidden {A : Type} (T : DebugH.Transport A) : Prop :=
  forall name meth args (g : TickerH.store) (p p' : DebugH.port T),
    In (name, meth) shim ->
    option_map fst (run_macro T name args (Build_machine T g p)) =
    option_map fst (run_macro T name args (Build_machine T g p')).

(** Each macro of the shim with the operation of the transport it stands
    for. *)
Definition shim_operation {A : Type} (T : DebugH.Transport A)
  : list (string * (list A -> DebugH.port T
                    -> DebugH.result T * DebugH.port T)) :=
  [ ("Debug",      fun vs p => DebugH.returning T (DebugH.t_print T vs p));
    ("Debugln",    fun vs p => DebugH.returning T (DebugH.t_println T vs p));
    ("Debugf",     fun vs p => DebugH.returning T (DebugH.t_printf T vs p));
    ("DebugFlush", fun _ p => (None, DebugH.t_flush T p));
    ("DebugT",     fun vs p => DebugH.returning T (DebugH.t_print T vs p));
    ("DebugTln",   fun vs p => DebugH.returning T (DebugH.t_println T vs p));
    ("DebugTf",    fun vs p => DebugH.returning T (DebugH.t_printf T vs p)) ].

(** [name(args)] preprocesses, and what is left holds one call and no more,
    a call of [Serial.meth]. *)
Definition one_call_forwarding {A : Type} (name meth : string)
           (args : list (DebugH.term A)) : Prop :=
  exists (e : DebugH.expr A) (args' : list (DebugH.expr A)),
    DebugH.preprocess (DebugH.Call name args) = Some e /\
    DebugH.calls e = [DebugH.ECall "Serial" meth args'].

(** The term holds an invocation of [DebugFlush] with arguments. *)
Fixpoint misuses {A : Type} (t : DebugH.term A) : bool :=
  match t with
  | DebugH.Arg _ => false
  | DebugH.Call name args =>
      existsb misuses args
      || (String.eqb name "DebugFlush"
          && match args with [] => false | _ :: _ => true end)
  end.

(** The computation [c] keeps the property [P] of the globals. *)
Definition keeps {A : Type} {T : DebugH.Transport A}
           (P : TickerH.store -> Prop) (X : Type)
           (c : machine T -> option (X * machine T)) : Prop :=
  forall m x m', c m = Some (x, m') -> P (globals m) -> P (globals m').

(** A console with nothing on the wire yet. *)
Definition fresh_console (up : bool) : machine DebugH.console_transport :=
  Build_machine DebugH.console_transport []
    {| DebugH.attached := up; DebugH.wire := [] |}.

(** A sketch for tests on the console.  Its argument expressions are
    literals, except [newsMsgID++], which gives the cell's value as decimal
    text and adds 1 to the cell (in the cell's type); the result of a
    writer, a byte count, is passed on as decimal text. *)
Fixpoint post_increment (name : string) (g : TickerH.store)
  : option (Z * TickerH.store) :=
  match g with
  | [] => None
  | (k, c) :: rest =>
      if String.eqb k name then
        match c with
        | TickerH.CInt bits signed v =>
            Some (v, (k, TickerH.CInt bits signed
                           (TickerH.wrap bits signed (v + 1))) :: rest)
        | _ => None
        end
      else
        match post_increment name rest with
        | Some (v, rest') => Some (v, (k, c) :: rest')
        | None => None
        end
  end.

Definition console_sketch : Caller DebugH.console_transport :=
  @Build_Caller string DebugH.console_transport
    (fun a m =>
       if String.eqb a "newsMsgID++" then
         match post_increment "newsMsgID" (globals m) with
         | Some (v, g) =>
             Some (NilZero.string_of_int (Z.to_int v),
                   Build_machine DebugH.console_transport g (Serial m))
         | None => None
         end
       else Some (a, m))
    (fun n : nat => Some (NilZero.string_of_uint (Nat.to_uint n)))
    false.

(** The cells the header groups as message buffers, timers and settings. *)
Definition message_buffers : list string :=
  [ "cMsg"; "tempMessage"; "actMessage"; "timeMsg"; "onTickerMessage";
    "fileMessage" ].

Definition timer_cells : list string :=
  [ "timeTimer"; "ntpTimer"; "weerTimer"; "newsapiTimer"; "revisionTimer" ].

Definition settings_cells : list string :=
  [ "settingHostname"; "settingNewsNoWords"; "settingLocalMaxMsg";
    "settingTextSpeed"; "settingMaxIntensity"; "settingLDRlowOffset";
    "settingLDRhighOffset"; "settingWeerLiveAUTH"; "settingWeerLiveLocation";
    "settingWeerLiveInterval"; "settingNewsAUTH"; "settingNewsInterval";
    "settingNewsMaxMsg" ].

(** The declaration of [name] has no initialiser. *)
Definition uninitialized (name : string) : bool :=
  match TickerH.find_decl name with
  | Some d => negb (TickerH.has_initializer d)
  | None => false
  end.

(** The initialiser written in the declaration of [name]. *)
Definition initializer_of (name : string) : option TickerH.initializer :=
  option_map TickerH.d_init (TickerH.find_decl name).

(** Content of [name] once the globals are initialised. *)
Definition initial (name : string) (clock : Z) : option TickerH.cell :=
  match TickerH.find_decl name with
  | Some d => TickerH.init_cell clock d
  | None => None
  end.

(** The cell holds what a global without initialiser holds: 0, [false], the
    empty string, NULs, a default-constructed object. *)
Definition blank (c : TickerH.cell) : bool :=
  match c with
  | TickerH.CInt _ _ v => Z.eqb v 0
  | TickerH.CBool b => negb b
  | TickerH.CChars buf => forallb (Ascii.eqb TickerH.NUL) buf
  | TickerH.CString s => String.eqb s ""
  | TickerH.CStrings l => forallb (String.eqb "") l
  | TickerH.CTable _ => false
  | TickerH.CEffects _ => false
  | TickerH.CObject _ args => match args with [] => true | _ :: _ => false end
  | TickerH.CZeroed => true
  end.

(* ------------------------------------------------------------------ *)
(** ** The debug shim                                                   *)
(* ------------------------------------------------------------------ *)

Ltac shim_cases H :=
  simpl in H;
  repeat (destruct H as [H | H]; [inversion H; subst; clear H | ]);
  [ .. | contradiction ].

Section Induction.

Variable A : Type.

(** Induction on terms and on preprocessed expressions, with the
    hypothesis for every argument. *)
Lemma term_induction (P : DebugH.term A -> Prop) :
  (forall a, P (DebugH.Arg a)) ->
  (forall name args, Forall P args -> P (DebugH.Call name args)) ->
  forall t, P t.
Proof.
  intros HArg HCall.
  fix IH 1. intros [a | name args].
  - apply HArg.
  - apply HCall. induction args as [ | t args IHargs].
    + constructor.
    + constructor; [apply IH | exact IHargs].
Qed.

Lemma expr_induction (P : DebugH.expr A -> Prop) :
  (forall a, P (DebugH.EArg a)) ->
  (forall obj meth args, Forall P args -> P (DebugH.ECall obj meth args)) ->
  (forall name args, Forall P args -> P (DebugH.EFun name args)) ->
  (forall body, Forall P body -> P (DebugH.EStmtExpr body)) ->
  forall e, P e.
Proof.
  intros HArg HCall HFun HStmt.
  fix IH 1.
  assert (Hall : forall l, Forall P l).
  { induction l as [ | e l IHl]; constructor; [apply IH | exact IHl]. }
  intros [a | obj meth args | name args | body].
  - apply HArg.
  - apply HCall, Hall.
  - apply HFun, Hall.
  - apply HStmt, Hall.
Qed.

End Induction.

Section Shim.

Variable A : Type.

(** Arguments without macro invocation preprocess to themselves. *)
Lemma preprocess_values (args : list A) :
  mapM (@DebugH.preprocess A) (map (@DebugH.Arg A) args)
  = Some (map (@DebugH.EArg A) args).
Proof.
  induction args as [ | a args IH]; simpl; [reflexivity | ].
  rewrite IH. reflexivity.
Qed.

(** Preprocessing keeps the number of arguments. *)
Lemma mapM_length (X Y : Type) (f : X -> option Y) :
  forall (l : list X) (l' : list Y), mapM f l = Some l' -> length l' = length l.
Proof.
  induction l as [ | x l IH]; intros l' H; simpl in H.
  - inversion H. reflexivity.
  - destruct (f x); [ | discriminate].
    destruct (mapM f l) as [ys | ]; [ | discriminate].
    inversion H. simpl. f_equal. apply IH. reflexivity.
Qed.

Lemma mapM_nil (X Y : Type) (f : X -> option Y) (l : list X) (l' : list Y) :
  mapM f l = Some l' -> (l = [] <-> l' = []).
Proof.
  intros H. apply mapM_length in H.
  destruct l, l'; simpl in H; try discriminate; split; congruence.
Qed.

(** [DebugFlush] is defined with [()]: it is accepted without argument
    only. *)
Lemma DebugFlush_accepted (args : list A) :
  DebugH.accepted "DebugFlush" args = true -> args = [].
Proof. destruct args; [reflexivity | discriminate]. Qed.

(** The six macros defined with [(...)] are accepted with any arguments. *)
Lemma variadic_accepted (name meth : string) (args : list A) :
  In (name, meth) shim -> name <> "DebugFlush" ->
  DebugH.accepted name args = true.
Proof. intros Hin Hn. shim_cases Hin; try reflexivity. contradiction. Qed.

(** An invocation of [DebugFlush] with arguments does not preprocess. *)
Lemma DebugFlush_takes_no_argument (a : DebugH.expr A)
      (args : list (DebugH.expr A)) :
  DebugH.invoke "DebugFlush" (a :: args) = None.
Proof. reflexivity. Qed.

(** A macro invoked on expanded arguments: statement expressions around
    one call of [Serial], to which the arguments go as they are. *)
Lemma invoke_shim (name meth : string) (args : list (DebugH.expr A)) :
  In (name, meth) shim ->
  (name = "DebugFlush" -> args = []) ->
  exists e, DebugH.invoke name args = Some e /\
            DebugH.calls e
            = (flat_map (@DebugH.calls A) args
                 ++ [DebugH.ECall "Serial" meth args])%list.
Proof.
  intros Hin Hflush.
  shim_cases Hin;
    try (eexists; split;
         [reflexivity | simpl; rewrite ?app_nil_r; reflexivity]).
  rewrite (Hflush eq_refl). eexists; split; reflexivity.
Qed.

Variable T : DebugH.Transport A.
Variable C : Caller T.

(** A statement expression of one statement is that statement. *)
Lemma eval_single (e : DebugH.expr A) (m : machine T) :
  eval C (DebugH.EStmtExpr [e]) m = eval C e m.
Proof. simpl. destruct (eval C e m) as [[v m'] | ]; reflexivity. Qed.

Lemma eval_Serial (meth : string) (args : list (DebugH.expr A)) (m : machine T) :
  eval C (DebugH.ECall "Serial" meth args) m
  = match eval_args C args m with
    | Some (vs, m1) => call_serial meth vs m1
    | None => None
    end.
Proof. reflexivity. Qed.

(** Evaluating the expansion of a macro is evaluating its call. *)
Lemma eval_shim (name meth : string) (args : list (DebugH.expr A))
      (e : DebugH.expr A) (m : machine T) :
  In (name, meth) shim ->
  DebugH.invoke name args = Some e ->
  eval C e m = eval C (DebugH.ECall "Serial" meth args) m.
Proof.
  intros Hin He.
  shim_cases Hin;
    try (inversion He; subst e; rewrite ?eval_single; reflexivity).
  destruct args; [ | discriminate He].
  inversion He; subst e. rewrite eval_single. reflexivity.
Qed.

End Shim.

Section Frame.

Variable A : Type.
Variable T : DebugH.Transport A.
Variable C : Caller T.

(** A property of the globals that the caller's expressions keep. *)
Variable P : TickerH.store -> Prop.
Hypothesis caller_keeps :
  forall a m v m', c_eval C a m = Some (v, m') ->
                   P (globals m) -> P (globals m').

Lemma in_turn_keeps (cs : list (machine T -> option (A * machine T))) :
  Forall (keeps P (X:=A)) cs -> keeps P (in_turn cs).
Proof.
  induction 1 as [ | c cs Hc _ IH]; intros m vs m' H HP; simpl in H.
  - inversion H; subst. exact HP.
  - destruct (c m) as [[v m1] | ] eqn:Hcm; [ | discriminate].
    destruct (in_turn cs m1) as [[vs' m2] | ] eqn:Hrest; [ | discriminate].
    inversion H; subst.
    unfold keeps in IH, Hc. eapply IH; [eassumption | ].
    eapply Hc; eassumption.
Qed.

Lemma in_order_keeps (rtl : bool)
      (cs : list (machine T -> option (A * machine T))) :
  Forall (keeps P (X:=A)) cs -> keeps P (in_order rtl cs).
Proof.
  intros Hcs m vs m' H HP. unfold in_order in H. destruct rtl.
  - destruct (in_turn (rev cs) m) as [[vs' m1] | ] eqn:Hrev; [ | discriminate].
    inversion H; subst.
    pose proof (in_turn_keeps (Forall_rev Hcs)) as Hk.
    unfold keeps in Hk. eapply Hk; eassumption.
  - pose proof (in_turn_keeps Hcs) as Hk.
    unfold keeps in Hk. eapply Hk; eassumption.
Qed.

Lemma as_arg_keeps (c : machine T -> option (val T * machine T)) :
  keeps P c -> keeps P (fun m => as_arg C (c m)).
Proof.
  intros Hc m a m' H HP. unfold as_arg in H.
  destruct (c m) as [[[ | r | v] m1] | ] eqn:Hcm; try discriminate.
  - destruct (c_ret C r); [ | discriminate]. inversion H; subst.
    unfold keeps in Hc. eapply Hc; eassumption.
  - inversion H; subst. unfold keeps in Hc. eapply Hc; eassumption.
Qed.

(** Evaluation changes the globals through the caller's expressions only:
    a call of [Serial] moves the port and nothing else. *)
Lemma eval_keeps (e : DebugH.expr A) : keeps P (eval C e).
Proof.
  induction e as [a | obj meth args IH | name args _ | body IH]
    using expr_induction; intros m v m' H HP; simpl in H.
  - destruct (c_eval C a m) as [[x m1] | ] eqn:Ha; [ | discriminate].
    inversion H; subst. eapply caller_keeps; eassumption.
  - destruct (String.eqb obj "Serial"); [ | discriminate].
    destruct (in_order _ _ m) as [[vs m1] | ] eqn:Hargs; [ | discriminate].
    unfold call_serial in H.
    destruct (DebugH.serial_call T meth vs (Serial m1)) as [[r p] | ];
      [ | discriminate].
    inversion H; subst. simpl.
    assert (Hk : keeps P (in_order (c_rtl C)
                            (map (fun a m' => as_arg C (eval C a m')) args))).
    { apply in_order_keeps. apply Forall_map. revert IH. apply Forall_impl.
      intros a Ha. apply (as_arg_keeps Ha). }
    unfold keeps in Hk. eapply Hk; eassumption.
  - discriminate.
  - revert H. generalize (@Void A T). revert v m' m HP.
    induction IH as [ | s body Hs _ IHbody]; intros v m' m HP v0 H.
    + inversion H; subst. exact HP.
    + simpl in H.
      destruct (eval C s m) as [[v1 m1] | ] eqn:Hsm; [ | discriminate].
      unfold keeps in Hs.
      eapply IHbody; [ | exact H]. eapply Hs; eassumption.
Qed.

End Frame.

Section OnValues.

Variable A : Type.
Variable T : DebugH.Transport A.

(** Values evaluate to themselves and leave the machine as it is. *)
Lemma eval_values (args : list A) (m : machine T) :
  eval_args (plain T) (map (@DebugH.EArg A) args) m = Some (args, m).
Proof.
  unfold eval_args. simpl. induction args as [ | a args IH]; simpl.
  - reflexivity.
  - rewrite IH. reflexivity.
Qed.

(** The four methods always return; [flush] alone returns nothing. *)
Lemma serial_call_total (name meth : string) (args : list A) (p : DebugH.port T) :
  In (name, meth) shim ->
  DebugH.accepted name args = true ->
  exists r p', DebugH.serial_call T meth args p = Some (r, p') /\
               (r = None <-> meth = "flush").
Proof.
  intros Hin Hacc.
  shim_cases Hin;
    try (do 2 eexists; split; [reflexivity | split; discriminate]).
  rewrite (DebugFlush_accepted _ Hacc).
  do 2 eexists; split; [reflexivity | split; reflexivity].
Qed.

(** Running a macro on values is making its call. *)
Lemma run_macro_is_call (name meth : string) (args : list A) (m : machine T) :
  In (name, meth) shim ->
  DebugH.accepted name args = true ->
  run_macro T name args m = run_call T meth args m.
Proof.
  intros Hin Hacc.
  assert (Hflush : name = "DebugFlush" -> map (@DebugH.EArg A) args = []).
  { intros ->. rewrite (DebugFlush_accepted _ Hacc). reflexivity. }
  destruct (@invoke_shim A name meth _ Hin Hflush) as (e & He & _).
  unfold run_macro, run. simpl DebugH.preprocess.
  rewrite preprocess_values, He.
  rewrite (@eval_shim A T (plain T) name meth _ e m Hin He).
  rewrite eval_Serial, eval_values.
  unfold call_serial, run_call.
  destruct (DebugH.serial_call T meth args (Serial m)) as [[[r | ] p] | ];
    reflexivity.
Qed.

(** A macro run on values reaches the port only: the globals are as
    before. *)
Lemma run_macro_globals (name : string) (args : list A) (m m' : machine T)
      (r : DebugH.result T) :
  run_macro T name args m = Some (r, m') -> globals m' = globals m.
Proof.
  unfold run_macro, run.
  destruct (DebugH.preprocess _) as [e | ]; [ | discriminate].
  destruct (eval (plain T) e m) as [[v m1] | ] eqn:He; [ | discriminate].
  destruct (as_result v); [ | discriminate].
  intros H. inversion H; subst.
  assert (Hk : keeps (fun g => g = globals m) (eval (plain T) e)).
  { apply eval_keeps. intros a m0 x m0' Ha Hg. inversion Ha; subst. exact Hg. }
  unfold keeps in Hk. eapply Hk; [eassumption | reflexivity].
Qed.

End OnValues.

(* ------------------------------------------------------------------ *)
(** ** The globals at startup                                           *)
(* ------------------------------------------------------------------ *)

Section Startup.

Import TickerH.

(** Every declaration of the header initialises. *)
Lemma startup_total (clock : Z) : exists g, startup clock = Some g.
Proof. eexists. reflexivity. Qed.

(** A cell of the initialised store is the initial content of the first
    declaration of that name. *)
Lemma assoc_mapM (f : decl -> option cell) (name : string) :
  forall (l : list decl) (g : store),
    mapM (fun d => option_map (pair (d_name d)) (f d)) l = Some g ->
    assoc name g =
    match find (fun d => String.eqb (d_name d) name) l with
    | Some d => f d
    | None => None
    end.
Proof.
  induction l as [ | d l IH]; intros g H; simpl in H.
  - inversion H. reflexivity.
  - destruct (f d) as [c | ] eqn:Hc; simpl in H; [ | discriminate].
    destruct (mapM _ l) as [g' | ] eqn:Hg; [ | discriminate].
    inversion H; subst; clear H. simpl.
    destruct (String.eqb (d_name d) name); [ symmetry; exact Hc | ].
    apply IH. reflexivity.
Qed.

Lemma assoc_startup (clock : Z) (g : store) (name : string) :
  startup clock = Some g -> assoc name g = initial name clock.
Proof. intros H. unfold initial, find_decl. apply (assoc_mapM _ _ _ H). Qed.

(** [ntpTimer] holds the clock plus 30000, converted to [uint32_t]. *)
Lemma ntpTimer_initial (clock : Z) :
  initial "ntpTimer" clock = Some (CInt 32 false ((clock + 30000) mod 2 ^ 32)).
Proof. reflexivity. Qed.

End Startup.

(* ------------------------------------------------------------------ *)
(** ** Properties of the debug shim                                     *)
(* ------------------------------------------------------------------ *)

Unset Implicit Arguments.

(** C1, as stated, fails.  [DebugFlush] is defined with an empty
    parameter list: with an argument it does not preprocess at all, so it
    forwards nothing.  And an argument that is itself a macro invocation is
    expanded where it stands: what is left of [Debugln(Debug(1))] holds two
    calls, not one. *)
Lemma C1_counterexample_DebugFlush_with_argument :
  DebugH.expand "DebugFlush" ["1"] = None /\
  ~ one_call_forwarding "DebugFlush" "flush" [DebugH.Arg "1"] /\
  option_map (@DebugH.calls string)
    (DebugH.preprocess
       (DebugH.Call "Debugln" [DebugH.Call "Debug" [DebugH.Arg "1"]]))
  = Some [ DebugH.ECall "Serial" "print" [DebugH.EArg "1"];
           DebugH.ECall "Serial" "println"
             [DebugH.EStmtExpr
                [DebugH.ECall "Serial" "print" [DebugH.EArg "1"]]] ] /\
  ~ one_call_forwarding "Debugln" "println"
      [DebugH.Call "Debug" [DebugH.Arg "1"]] /\
  ~ (forall (name meth : string) (args : list (DebugH.term string)),
        In (name, meth) shim -> one_call_forwarding name meth args).
Proof.
  assert (Hflush : ~ one_call_forwarding "DebugFlush" "flush"
                     [DebugH.Arg "1"]).
  { intros (e & args' & He & _). discriminate He. }
  assert (Hnested : ~ one_call_forwarding "Debugln" "println"
                      [DebugH.Call "Debug" [DebugH.Arg "1"]]).
  { intros (e & args' & He & Hcalls).
    inversion He; subst. discriminate Hcalls. }
  split; [reflexivity | split; [exact Hflush | ]].
  split; [reflexivity | split; [exact Hnested | ]].
  intros H. apply Hflush, H. simpl; tauto.
Qed.

(** C1, amended.  An invocation of a macro of the shim whose arguments
    preprocess expands, when the macro is one of the six defined with
    [(...)] or [DebugFlush] without argument, to statement expressions
    around exactly one call of its own, [Serial.print], [println], [printf]
    or [flush] respectively: the calls left are those of the expanded
    arguments and that one, which takes the expanded arguments in order and
    no other.  Evaluating it evaluates these arguments, once, in the
    caller's scope, and then does what the operation of the transport does
    on their values, and nothing else.  [DebugFlush] with arguments does
    not preprocess. *)
Theorem C1_macros_forward_to_serial :
  forall (A : Type) (name meth : string)
         (args : list (DebugH.term A)) (args' : list (DebugH.expr A)),
    In (name, meth) shim ->
    mapM (@DebugH.preprocess A) args = Some args' ->
    (name = "DebugFlush" -> args <> [] ->
     DebugH.preprocess (DebugH.Call name args) = None) /\
    ((name = "DebugFlush" -> args = []) ->
     exists e : DebugH.expr A,
       DebugH.preprocess (DebugH.Call name args) = Some e /\
       DebugH.calls e
       = (flat_map (@DebugH.calls A) args'
            ++ [DebugH.ECall "Serial" meth args'])%list /\
       forall (T : DebugH.Transport A) (C : Caller T) (m : machine T)
              (op : list A -> DebugH.port T
                    -> DebugH.result T * DebugH.port T),
         In (name, op) (shim_operation T) ->
         eval C e m
         = match eval_args C args' m with
           | Some (vs, m1) =>
               Some (of_result (fst (op vs (Serial m1))),
                     Build_machine T (globals m1) (snd (op vs (Serial m1))))
           | None => None
           end).
Proof.
  intros A name meth args args' Hin Hargs. split.
  - intros -> Hne. simpl. rewrite Hargs.
    destruct args' as [ | a args'].
    + exfalso. apply Hne. apply (mapM_nil _ _ Hargs). reflexivity.
    + reflexivity.
  - intros Hflush.
    assert (Hflush' : name = "DebugFlush" -> args' = []).
    { intros Hn. apply (mapM_nil _ _ Hargs). exact (Hflush Hn). }
    destruct (@invoke_shim A name meth args' Hin Hflush')
      as (e & He & Hcalls).
    exists e. split; [simpl; rewrite Hargs; exact He | ].
    split; [exact Hcalls | ].
    intros T C m op Hop.
    rewrite (@eval_shim A T C name meth args' e m Hin He), eval_Serial.
    destruct (eval_args C args' m) as [[vs m1] | ] eqn:Hvs; [ | reflexivity].
    unfold call_serial.
    shim_cases Hin; shim_cases Hop; try discriminate; try reflexivity.
    rewrite (Hflush' eq_refl) in Hvs.
    unfold eval_args in Hvs. destruct (c_rtl C); simpl in Hvs;
      inversion Hvs; subst; reflexivity.
Qed.

Lemma C1_witness_Debugln_of_Debug :
  In ("Debugln", "println") shim /\
  mapM (@DebugH.preprocess string) [DebugH.Call "Debug" [DebugH.Arg "1"]]
  = Some [DebugH.EStmtExpr [DebugH.ECall "Serial" "print" [DebugH.EArg "1"]]] /\
  ("Debugln" = "DebugFlush" -> [DebugH.Call "Debug" [DebugH.Arg "1"]] <> [] ->
   DebugH.preprocess
     (DebugH.Call "Debugln" [DebugH.Call "Debug" [DebugH.Arg "1"]]) = None) /\
  (("Debugln" = "DebugFlush" -> [DebugH.Call "Debug" [DebugH.Arg "1"]] = []) ->
   exists e : DebugH.expr string,
     DebugH.preprocess
       (DebugH.Call "Debugln" [DebugH.Call "Debug" [DebugH.Arg "1"]]) = Some e /\
     DebugH.calls e
     = (flat_map (@DebugH.calls string)
          [DebugH.EStmtExpr [DebugH.ECall "Serial" "print" [DebugH.EArg "1"]]]
        ++ [DebugH.ECall "Serial" "println"
              [DebugH.EStmtExpr
                 [DebugH.ECall "Serial" "print" [DebugH.EArg "1"]]]])%list /\
     forall (T : DebugH.Transport string) (C : Caller T) (m : machine T)
            (op : list string -> DebugH.port T
                  -> DebugH.result T * DebugH.port T),
       In ("Debugln", op) (shim_operation T) ->
       eval C e m
       = match eval_args C
                 [DebugH.EStmtExpr
                    [DebugH.ECall "Serial" "print" [DebugH.EArg "1"]]] m with
         | Some (vs, m1) =>
             Some (of_result (fst (op vs (Serial m1))),
                   Build_machine T (globals m1) (snd (op vs (Serial m1))))
         | None => None
         end).
Proof.
  assert (Hin : In ("Debugln", "println") shim) by (simpl; tauto).
  assert (Hargs : mapM (@DebugH.preprocess string)
                    [DebugH.Call "Debug" [DebugH.Arg "1"]]
                  = Some [DebugH.EStmtExpr
                            [DebugH.ECall "Serial" "print" [DebugH.EArg "1"]]])
    by reflexivity.
  split; [exact Hin | split; [exact Hargs | ]].
  exact (C1_macros_forward_to_serial string "Debugln" "println"
           [DebugH.Call "Debug" [DebugH.Arg "1"]]
           [DebugH.EStmtExpr [DebugH.ECall "Serial" "print" [DebugH.EArg "1"]]]
           Hin Hargs).
Defined.

(** C4, as stated, fails: [Debug("x")] is a statement expression whose
    value is the value of [Serial.print("x")].  On the console it is the
    number of bytes written, 1 on an attached port and 0 on a detached one,
    so a caller can both use the value and see the failure. *)
Lemma C4_counterexample_Debug_yields_byte_count :
  option_map fst
    (run_macro DebugH.console_transport "Debug" ["x"] (fresh_console true))
  = Some (Some 1) /\
  option_map fst
    (run_macro DebugH.console_transport "Debug" ["x"] (fresh_console false))
  = Some (Some 0) /\
  ~ shim_yields_nothing DebugH.console_transport /\
  ~ transport_state_hidden DebugH.console_transport.
Proof.
  split; [reflexivity | split; [reflexivity | split]].
  - intros H.
    specialize (H "Debug" "print" ["x"] (fresh_console true)
                  (Some 1)
                  (Build_machine DebugH.console_transport []
                     {| DebugH.attached := true;
                        DebugH.wire := [("print", ["x"])] |})).
    discriminate H; [simpl; tauto | reflexivity].
  - intros H.
    specialize (H "Debug" "print" ["x"] []
                  {| DebugH.attached := true; DebugH.wire := [] |}
                  {| DebugH.attached := false; DebugH.wire := [] |}).
    discriminate H. simpl; tauto.
Qed.

(** C4, amended.  The shim adds no result and no error branch of its own:
    an accepted invocation always returns, its value is exactly the value of
    its single [Serial] call and its effect on the port is that call's.
    The value is [void] for [DebugFlush] and for no other macro: the write
    macros yield what [print], [println] and [printf] return. *)
Theorem C4_macro_yields_what_its_call_returns :
  forall (A : Type) (T : DebugH.Transport A) (name meth : string)
         (args : list A) (m : machine T),
    In (name, meth) shim ->
    DebugH.accepted name args = true ->
    exists r p,
      DebugH.serial_call T meth args (Serial m) = Some (r, p) /\
      run_macro T name args m = Some (r, Build_machine T (globals m) p) /\
      (r = None <-> name = "DebugFlush").
Proof.
  intros A T name meth args m Hin Hacc.
  destruct (@serial_call_total A T name meth args (Serial m) Hin Hacc)
    as (r & p & Hcall & Hvoid).
  exists r, p. split; [exact Hcall | split].
  - rewrite (@run_macro_is_call A T name meth args m Hin Hacc).
    unfold run_call. rewrite Hcall. reflexivity.
  - rewrite Hvoid. clear - Hin.
    shim_cases Hin; split; (reflexivity || discriminate).
Qed.

Lemma C4_witness_Debugln :
  In ("Debugln", "println") shim /\
  DebugH.accepted "Debugln" ["hi"] = true /\
  exists r p,
    DebugH.serial_call DebugH.console_transport "println" ["hi"]
      (Serial (fresh_console true)) = Some (r, p) /\
    run_macro DebugH.console_transport "Debugln" ["hi"] (fresh_console true)
    = Some (r, Build_machine DebugH.console_transport
                 (globals (fresh_console true)) p) /\
    (r = None <-> "Debugln" = "DebugFlush").
Proof.
  assert (Hin : In ("Debugln", "println") shim) by (simpl; tauto).
  assert (Hacc : DebugH.accepted "Debugln" ["hi"] = true) by reflexivity.
  split; [exact Hin | split; [exact Hacc | ]].
  exact (C4_macro_yields_what_its_call_returns string DebugH.console_transport
           "Debugln" "println" ["hi"] (fresh_console true) Hin Hacc).
Defined.

(** C8. [DebugT], [DebugTln] and [DebugTf] are [Debug], [Debugln] and
    [Debugf]: for every argument list and on every transport, each pair
    expands to the same single call, yields the same value and leaves the
    same port (no timestamp, no prefix), and all of them return. *)
Theorem C8_timestamped_macros_are_the_plain_ones :
  forall (A : Type) (T : DebugH.Transport A) (args : list A) (m : machine T),
    (run_macro T "DebugT" args m = run_macro T "Debug" args m /\
     run_macro T "DebugTln" args m = run_macro T "Debugln" args m /\
     run_macro T "DebugTf" args m = run_macro T "Debugf" args m) /\
    (option_map (@DebugH.calls A) (DebugH.expand "DebugT" args)
     = option_map (@DebugH.calls A) (DebugH.expand "Debug" args) /\
     option_map (@DebugH.calls A) (DebugH.expand "DebugTln" args)
     = option_map (@DebugH.calls A) (DebugH.expand "Debugln" args) /\
     option_map (@DebugH.calls A) (DebugH.expand "DebugTf" args)
     = option_map (@DebugH.calls A) (DebugH.expand "Debugf" args)) /\
    (run_macro T "Debug" args m
     = Some (Some (fst (DebugH.t_print T args (Serial m))),
             Build_machine T (globals m)
               (snd (DebugH.t_print T args (Serial m)))) /\
     run_macro T "Debugln" args m
     = Some (Some (fst (DebugH.t_println T args (Serial m))),
             Build_machine T (globals m)
               (snd (DebugH.t_println T args (Serial m)))) /\
     run_macro T "Debugf" args m
     = Some (Some (fst (DebugH.t_printf T args (Serial m))),
             Build_machine T (globals m)
               (snd (DebugH.t_printf T args (Serial m))))).
Proof.
  intros A T args m.
  assert (Hrun : forall name meth,
             In (name, meth) shim -> name <> "DebugFlush" ->
             run_macro T name args m = run_call T meth args m).
  { intros name meth Hin Hn. apply run_macro_is_call; [exact Hin | ].
    apply (variadic_accepted _ Hin Hn). }
  assert (Hexp : forall name,
             DebugH.expand name args
             = DebugH.invoke name (map (@DebugH.EArg A) args)).
  { intros name. unfold DebugH.expand. simpl.
    rewrite preprocess_values. reflexivity. }
  split; [ | split].
  - rewrite (Hrun "DebugT" "print"), (Hrun "Debug" "print"),
      (Hrun "DebugTln" "println"), (Hrun "Debugln" "println"),
      (Hrun "DebugTf" "printf"), (Hrun "Debugf" "printf")
      by (first [discriminate | simpl; tauto]).
    repeat split.
  - rewrite !Hexp. simpl. rewrite !app_nil_r. repeat split.
  - rewrite (Hrun "Debug" "print"), (Hrun "Debugln" "println"),
      (Hrun "Debugf" "printf")
      by (first [discriminate | simpl; tauto]).
    repeat split.
Qed.

(* ------------------------------------------------------------------ *)
(** ** Properties of the declarations                                   *)
(* ------------------------------------------------------------------ *)

Import TickerH.

Ltac initial_of Hg := unfold capacity_of; rewrite ?(assoc_startup _ Hg).

(** C2. The scroll-effect catalog [effect] is, at every startup, the array
    of the twenty effects listed in the header, in the order of the header:
    [PA_PRINT] first, [PA_SCROLL_DOWN] last, no effect twice, none of the
    commented-out ones; and running a macro of the fragment leaves it as it
    is. *)
Theorem C2_effect_catalog_is_fixed :
  forall clock : Z,
  exists (g : store) (catalog : list textEffect_t),
    startup clock = Some g /\
    assoc "effect" g = Some (CEffects catalog) /\
    catalog =
      [ PA_PRINT; PA_SCROLL_LEFT; PA_WIPE; PA_SCROLL_UP_LEFT; PA_SCROLL_UP;
        PA_OPENING_CURSOR; PA_GROW_UP; PA_MESH; PA_SCROLL_UP_RIGHT;
        PA_CLOSING; PA_RANDOM; PA_GROW_DOWN; PA_SCAN_VERT;
        PA_SCROLL_DOWN_LEFT; PA_WIPE_CURSOR; PA_OPENING; PA_CLOSING_CURSOR;
        PA_SCROLL_DOWN_RIGHT; PA_SCROLL_RIGHT; PA_SCROLL_DOWN ] /\
    length catalog = 20 /\
    nth_error catalog 0 = Some PA_PRINT /\
    nth_error catalog 19 = Some PA_SCROLL_DOWN /\
    NoDup catalog /\
    Forall (fun e => ~ In e catalog)
           [PA_SCAN_HORIZ; PA_BLINDS; PA_DISSOLVE; PA_SLICE] /\
    (forall (A : Type) (T : DebugH.Transport A) (name : string)
            (args : list A) (p : DebugH.port T) (r : DebugH.result T)
            (m' : machine T),
        run_macro T name args (Build_machine T g p) = Some (r, m') ->
        assoc "effect" (globals m') = Some (CEffects catalog)).
Proof.
  intros clock. destruct (startup_total clock) as [g Hg].
  exists g. eexists. split; [exact Hg | ].
  split; [initial_of Hg; reflexivity | ].
  split; [reflexivity | ].
  split; [reflexivity | ].
  split; [reflexivity | ].
  split; [reflexivity | ].
  split.
  { repeat (apply NoDup_cons; [simpl; intuition discriminate | ]).
    apply NoDup_nil. }
  split.
  { repeat (apply Forall_cons; [simpl; intuition discriminate | ]).
    apply Forall_nil. }
  intros A T name args p r m' Hrun.
  rewrite (run_macro_globals _ _ _ Hrun). simpl.
  initial_of Hg. reflexivity.
Qed.

(** C3. Every character buffer declared in the header has the capacity
    written in its declaration, which is not zero: 512 ([NEWS_SIZE]) for
    [cMsg] and [actMessage], 255 ([LOCAL_SIZE]) for [tempMessage],
    [onTickerMessage] and [fileMessage]; running a macro of the fragment
    changes no capacity. *)
Theorem C3_buffer_capacities_are_fixed :
  forall clock : Z,
  exists g : store,
    startup clock = Some g /\
    map d_name (filter is_char_buffer ESP_ticker_h)
    = [ "cDate"; "cTime"; "cMsg"; "tempMessage"; "actMessage"; "timeMsg";
        "onTickerMessage"; "fileMessage"; "fChar"; "settingHostname";
        "settingNewsNoWords"; "settingWeerLiveAUTH";
        "settingWeerLiveLocation"; "settingNewsAUTH" ] /\
    Forall (fun d => exists n : nat,
                declared_size d = Some n /\ 0 < n /\
                capacity_of (d_name d) g = Some n)
           (filter is_char_buffer ESP_ticker_h) /\
    assoc "NEWS_SIZE" defines = Some (LInt 512) /\
    assoc "LOCAL_SIZE" defines = Some (LInt 255) /\
    capacity_of "cMsg" g = Some 512 /\
    capacity_of "actMessage" g = Some 512 /\
    capacity_of "tempMessage" g = Some 255 /\
    capacity_of "onTickerMessage" g = Some 255 /\
    capacity_of "fileMessage" g = Some 255 /\
    (forall (A : Type) (T : DebugH.Transport A) (name : string)
            (args : list A) (p : DebugH.port T) (r : DebugH.result T)
            (m' : machine T) (buffer : string),
        run_macro T name args (Build_machine T g p) = Some (r, m') ->
        capacity_of buffer (globals m') = capacity_of buffer g).
Proof.
  intros clock. destruct (startup_total clock) as [g Hg].
  exists g. split; [exact Hg | ].
  split; [reflexivity | ].
  split.
  { simpl filter.
    repeat (apply Forall_cons;
            [ eexists; split; [reflexivity | split;
                [apply Nat.ltb_lt; reflexivity
                | simpl d_name; initial_of Hg; reflexivity]] | ]).
    apply Forall_nil. }
  do 2 (split; [reflexivity | ]).
  do 5 (split; [initial_of Hg; reflexivity | ]).
  intros A T name args p r m' buffer Hrun.
  rewrite (run_macro_globals _ _ _ Hrun). reflexivity.
Qed.

(** C5. The header defines [SETTINGS_FILE] as the string
    ["/settings.ini"]. *)
Theorem C5_SETTINGS_FILE_is_settings_ini :
  assoc "SETTINGS_FILE" defines = Some (LStr "/settings.ini") /\
  eval_expr 0 (Name "SETTINGS_FILE") = Some (VStr "/settings.ini").
Proof. split; reflexivity. Qed.

(** C6. The header declares exactly one object of class
    [ESP8266WebServer], named [httpServer], constructed with the single
    argument 80; at startup the store holds that one server object. *)
Theorem C6_one_httpServer_on_port_80 :
  instances_of "ESP8266WebServer"
  = [Global (t_class "ESP8266WebServer") "httpServer" Scalar (Ctor [int 80])] /\
  forall clock : Z,
  exists g : store,
    startup clock = Some g /\
    assoc "httpServer" g = Some (CObject "ESP8266WebServer" [VInt 80]) /\
    filter (fun entry => match snd entry with
                         | CObject cls _ => String.eqb cls "ESP8266WebServer"
                         | _ => false
                         end) g
    = [("httpServer", CObject "ESP8266WebServer" [VInt 80])].
Proof.
  split; [reflexivity | ].
  intros clock. eexists. split; [reflexivity | ].
  split; reflexivity.
Qed.

(** C7, as stated, fails: the timer cells are declared with initialisers,
    [timeTimer] with [= 0], and so are two of the message buffers. *)
Lemma C7_counterexample_timeTimer_has_an_initializer :
  initializer_of "timeTimer" = Some (Assign (int 0)) /\
  uninitialized "timeTimer" = false /\
  forallb uninitialized (message_buffers ++ timer_cells ++ settings_cells)%list
  = false.
Proof. repeat split; reflexivity. Qed.

(** C7, amended.  The settings cells and the message buffers [cMsg],
    [actMessage], [timeMsg] and [fileMessage] are declared without
    initialiser; [tempMessage] and [onTickerMessage] are declared with an
    empty one ([= ""] and [= {}]); every timer cell is declared with an
    initialiser ([= 0], and [= millis() + 30000] for [ntpTimer]).  At
    startup every message buffer is filled with NULs. *)
Theorem C7_declared_initializers :
  forallb uninitialized settings_cells = true /\
  forallb uninitialized ["cMsg"; "actMessage"; "timeMsg"; "fileMessage"] = true /\
  initializer_of "tempMessage" = Some (Assign (str "")) /\
  initializer_of "onTickerMessage" = Some (Braces []) /\
  map initializer_of timer_cells
  = [ Some (Assign (int 0));
      Some (Assign (Plus (Call "millis") (int 30000)));
      Some (Assign (int 0)); Some (Assign (int 0)); Some (Assign (int 0)) ] /\
  forall clock : Z,
  exists g : store,
    startup clock = Some g /\
    Forall (fun name => exists n : nat,
                assoc name g = Some (CChars (repeat NUL n)) /\ 0 < n)
           message_buffers.
Proof.
  do 5 (split; [reflexivity | ]).
  intros clock. destruct (startup_total clock) as [g Hg].
  exists g. split; [exact Hg | ].
  unfold message_buffers.
  repeat (apply Forall_cons;
          [ eexists; split;
            [ initial_of Hg; reflexivity | apply Nat.ltb_lt; reflexivity ] | ]).
  apply Forall_nil.
Qed.

(** C9. [weekDayName] has nine entries, ["Unknown"] at index 0 and at
    index 8, and every index from 0 to 8 holds a name. *)
Theorem C9_weekDayName_has_nine_entries :
  forall clock : Z,
  exists (g : store) (names : list string),
    startup clock = Some g /\
    assoc "weekDayName" g = Some (CTable names) /\
    length names = 9 /\
    nth_error names 0 = Some "Unknown" /\
    nth_error names 8 = Some "Unknown" /\
    (forall i : nat, i <= 8 ->
       exists s : string, nth_error names i = Some s /\ s <> "") /\
    (forall i : nat, 8 < i -> nth_error names i = None).
Proof.
  intros clock. destruct (startup_total clock) as [g Hg].
  exists g. eexists. split; [exact Hg | ].
  split; [initial_of Hg; reflexivity | ].
  do 3 (split; [reflexivity | ]).
  split.
  - intros i Hi.
    do 9 (destruct i as [ | i];
          [eexists; split; [reflexivity | discriminate] | ]).
    lia.
  - intros i Hi. apply nth_error_None. simpl. lia.
Qed.

(** C10. At startup [ntpTimer] holds the millisecond clock plus 30000, the
    sum being taken in [uint32_t] as the declaration has it (so it is the
    plain sum as long as that is below 2^32, which it is for the first 49
    days after power-up), and [timeTimer], [weerTimer], [newsapiTimer] and
    [revisionTimer] hold 0. *)
Theorem C10_ntpTimer_starts_30_seconds_ahead :
  forall clock : Z,
    (0 <= clock < 2 ^ 32)%Z ->
    exists (g : store) (ntp : Z),
      startup clock = Some g /\
      assoc "ntpTimer" g = Some (CInt 32 false ntp) /\
      ntp = ((clock + 30000) mod 2 ^ 32)%Z /\
      ((clock + 30000 < 2 ^ 32)%Z -> ntp = (clock + 30000)%Z) /\
      assoc "timeTimer" g = Some (CInt 32 false 0) /\
      assoc "weerTimer" g = Some (CInt 32 false 0) /\
      assoc "newsapiTimer" g = Some (CInt 32 false 0) /\
      assoc "revisionTimer" g = Some (CInt 32 false 0).
Proof.
  intros clock Hclock. destruct (startup_total clock) as [g Hg].
  exists g. eexists. split; [exact Hg | ].
  split; [initial_of Hg; apply ntpTimer_initial | ].
  split; [reflexivity | ].
  split; [intros Hfit; apply Z.mod_small; lia | ].
  repeat split; initial_of Hg; reflexivity.
Qed.

Lemma C10_witness_clock_1234 :
  (0 <= 1234 < 2 ^ 32)%Z /\
  exists (g : store) (ntp : Z),
    startup 1234 = Some g /\
    assoc "ntpTimer" g = Some (CInt 32 false ntp) /\
    ntp = ((1234 + 30000) mod 2 ^ 32)%Z /\
    ((1234 + 30000 < 2 ^ 32)%Z -> ntp = (1234 + 30000)%Z) /\
    assoc "timeTimer" g = Some (CInt 32 false 0) /\
    assoc "weerTimer" g = Some (CInt 32 false 0) /\
    assoc "newsapiTimer" g = Some (CInt 32 false 0) /\
    assoc "revisionTimer" g = Some (CInt 32 false 0).
Proof.
  assert (Hclock : (0 <= 1234 < 2 ^ 32)%Z) by (split; vm_compute; congruence).
  split; [exact Hclock | ].
  exact (C10_ntpTimer_starts_30_seconds_ahead 1234 Hclock).
Defined.

(* ------------------------------------------------------------------ *)
(** ** Further properties of the debug shim                             *)
(* ------------------------------------------------------------------ *)

(** X1. Whatever the sketch writes, however its invocations are nested,
    preprocessing fails in one case only: somewhere in it [DebugFlush],
    which is defined with an empty parameter list, is invoked with
    arguments.  No other name and no other argument list is refused, and
    the nesting of the macros never exhausts the expansion. *)
Theorem preprocess_fails_only_on_DebugFlush_with_arguments :
  forall (A : Type) (t : DebugH.term A),
    DebugH.preprocess t = None <-> misuses t = true.
Proof.
  intros A t.
  induction t as [a | name args IH] using term_induction.
  - simpl. split; discriminate.
  - assert (Hargs : mapM (@DebugH.preprocess A) args = None
                    <-> existsb misuses args = true).
    { induction IH as [ | t args Ht _ IHargs]; simpl.
      - split; discriminate.
      - destruct (DebugH.preprocess t) as [e | ] eqn:He.
        + assert (Hm : misuses t = false).
          { destruct (misuses t); [ | reflexivity].
            destruct Ht as [_ Ht]. discriminate (Ht eq_refl). }
          rewrite Hm. simpl. rewrite <- IHargs.
          destruct (mapM _ args); split; congruence.
        + destruct Ht as [Ht _]. rewrite (Ht eq_refl). simpl.
          split; reflexivity. }
    simpl.
    destruct (mapM (@DebugH.preprocess A) args) as [args' | ] eqn:Hpre.
    + assert (Hm : existsb misuses args = false).
      { destruct (existsb misuses args); [ | reflexivity].
        destruct Hargs as [_ Hargs]. discriminate (Hargs eq_refl). }
      rewrite Hm. simpl.
      assert (Hnil : match args with [] => false | _ :: _ => true end
                     = match args' with [] => false | _ :: _ => true end).
      { apply mapM_length in Hpre.
        destruct args, args'; simpl in Hpre; congruence. }
      rewrite Hnil. clear.
      unfold DebugH.invoke. cbn -[String.eqb].
      repeat match goal with
             | |- context [String.eqb ?a name] =>
                 destruct (String.eqb_spec a name) as [<- | ?]
             end;
        cbn -[String.eqb];
        try (split; discriminate);
        try (destruct (String.eqb_spec name "DebugFlush");
             [congruence | split; discriminate]).
      destruct args'; simpl; split; (reflexivity || discriminate).
    + destruct Hargs as [Hargs _]. rewrite (Hargs eq_refl).
      split; reflexivity.
Qed.

(** X2. [DebugT], [DebugTln] and [DebugTf] are [Debug], [Debugln] and
    [Debugf] for every caller and for all arguments, also arguments that
    invoke macros themselves or change the globals: each pair preprocesses
    alike (both fail or both succeed) and runs to the same value and the
    same machine. *)
Theorem timestamped_macros_are_the_plain_ones_on_any_arguments :
  forall (A : Type) (T : DebugH.Transport A) (C : Caller T)
         (args : list (DebugH.term A)) (m : machine T),
    run C (DebugH.Call "DebugT" args) m = run C (DebugH.Call "Debug" args) m /\
    run C (DebugH.Call "DebugTln" args) m
    = run C (DebugH.Call "Debugln" args) m /\
    run C (DebugH.Call "DebugTf" args) m = run C (DebugH.Call "Debugf" args) m /\
    (DebugH.preprocess (DebugH.Call "DebugT" args) = None
     <-> DebugH.preprocess (DebugH.Call "Debug" args) = None) /\
    (DebugH.preprocess (DebugH.Call "DebugTln" args) = None
     <-> DebugH.preprocess (DebugH.Call "Debugln" args) = None) /\
    (DebugH.preprocess (DebugH.Call "DebugTf" args) = None
     <-> DebugH.preprocess (DebugH.Call "Debugf" args) = None).
Proof.
  intros A T C args m. unfold run.
  assert (Hcall : forall name,
             DebugH.preprocess (DebugH.Call name args)
             = match mapM (@DebugH.preprocess A) args with
               | Some args' => DebugH.invoke name args'
               | None => None
               end) by reflexivity.
  rewrite !Hcall. clear Hcall.
  destruct (mapM (@DebugH.preprocess A) args) as [args' | ].
  - change (DebugH.invoke "DebugT" args')
      with (Some (DebugH.EStmtExpr
                    [DebugH.EStmtExpr
                       [DebugH.ECall "Serial" "print" args']])).
    change (DebugH.invoke "DebugTln" args')
      with (Some (DebugH.EStmtExpr
                    [DebugH.EStmtExpr
                       [DebugH.ECall "Serial" "println" args']])).
    change (DebugH.invoke "DebugTf" args')
      with (Some (DebugH.EStmtExpr
                    [DebugH.EStmtExpr
                       [DebugH.ECall "Serial" "printf" args']])).
    change (DebugH.invoke "Debug" args')
      with (Some (DebugH.EStmtExpr [DebugH.ECall "Serial" "print" args'])).
    change (DebugH.invoke "Debugln" args')
      with (Some (DebugH.EStmtExpr [DebugH.ECall "Serial" "println" args'])).
    change (DebugH.invoke "Debugf" args')
      with (Some (DebugH.EStmtExpr [DebugH.ECall "Serial" "printf" args'])).
    cbv beta iota. rewrite !eval_single.
    repeat split; discriminate.
  - repeat split.
Qed.




(** On the console, [Debugln(Debug("1"))] writes twice, the argument
    first, and yields the 3 bytes of the second write. *)
Example nested_invocation_writes_twice :
  run console_sketch
      (DebugH.Call "Debugln" [DebugH.Call "Debug" [DebugH.Arg "1"]])
      (fresh_console true)
  = Some (@Ret string DebugH.console_transport 3,
          Build_machine DebugH.console_transport []
            {| DebugH.attached := true;
               DebugH.wire := [("print", ["1"]); ("println", ["1"])] |}).
Proof. reflexivity. Qed.

(* ------------------------------------------------------------------ *)
(** ** Further properties of the declarations                           *)
(* ------------------------------------------------------------------ *)

Lemma mapM_names (f : decl -> option cell) :
  forall (l : list decl) (g : store),
    mapM (fun d => option_map (pair (d_name d)) (f d)) l = Some g ->
    map fst g = map d_name l.
Proof.
  induction l as [ | d l IH]; intros g H; simpl in H.
  - inversion H. reflexivity.
  - destruct (f d) as [c | ]; simpl in H; [ | discriminate].
    destruct (mapM _ l) as [g' | ]; [ | discriminate].
    inversion H; subst; clear H. simpl. f_equal. apply IH. reflexivity.
Qed.

Lemma assoc_None (V : Type) (name : string) :
  forall l : list (string * V),
    assoc name l = None <-> ~ In name (map fst l).
Proof.
  induction l as [ | [k v] l IH]; simpl.
  - tauto.
  - destruct (String.eqb_spec k name) as [-> | Hne].
    + split; [discriminate | tauto].
    + rewrite IH. tauto.
Qed.

(** X4. The header declares 49 globals under 49 different names; the store at
    startup has one cell per declaration, in declaration order, and a name
    has a cell exactly when the header declares it. *)
Theorem startup_store_mirrors_the_declarations :
  forall clock : Z,
  exists g : store,
    startup clock = Some g /\
    map fst g = map d_name ESP_ticker_h /\
    length g = 49 /\
    NoDup (map fst g) /\
    (forall name : string,
        assoc name g = None <-> ~ In name (map d_name ESP_ticker_h)).
Proof.
  intros clock. destruct (startup_total clock) as [g Hg].
  assert (Hnames : map fst g = map d_name ESP_ticker_h)
    by (apply (mapM_names _ _ _ Hg)).
  exists g. split; [exact Hg | ]. split; [exact Hnames | ].
  split; [rewrite <- (length_map fst), Hnames; reflexivity | ].
  split.
  - rewrite Hnames. simpl.
    repeat (apply NoDup_cons;
            [ simpl; intros H;
              repeat (destruct H as [H | H]; [discriminate H | ]);
              contradiction
            | ]).
    apply NoDup_nil.
  - intros name. rewrite <- Hnames. apply assoc_None.
Qed.

(** X5. At startup every global is blank (0, [false], the empty string, NULs, a
    default-constructed object) except the display [P], the web server, the
    effect catalog, the two name tables and [ntpTimer]; and [ntpTimer]
    itself is 0 in the one case where the clock plus 30000 wraps to 0. *)
Theorem startup_is_blank_except_six :
  forall clock : Z,
  exists g : store,
    startup clock = Some g /\
    map fst (filter (fun entry => negb (blank (snd entry))) g)
    = if (wrap 32 false (clock + 30000) =? 0)%Z
      then ["P"; "httpServer"; "effect"; "weekDayName"; "flashMode"]
      else ["P"; "httpServer"; "effect"; "ntpTimer"; "weekDayName";
            "flashMode"].
Proof.
  intros clock. destruct (startup_total clock) as [g Hg].
  exists g. split; [exact Hg | ].
  unfold startup in Hg. cbv -[wrap Z.add] in Hg.
  set (w := wrap 32 false (clock + 30000)) in *. clearbody w.
  injection Hg as <-.
  destruct w; reflexivity.
Qed.

(** X6. [ntpTimer] is a [uint32_t] deadline: for every value of the clock it
    lies in the range of the type and is 30000 ahead of the clock in
    [uint32_t] arithmetic.  When the clock is within 30000 of the top of the
    range the sum wraps, and the deadline is then a number smaller than the
    clock. *)
Theorem ntpTimer_is_30000_ahead_modulo_2_32 :
  forall clock : Z,
    (0 <= clock < 2 ^ 32)%Z ->
    exists (g : store) (ntp : Z),
      startup clock = Some g /\
      assoc "ntpTimer" g = Some (CInt 32 false ntp) /\
      (0 <= ntp < 2 ^ 32)%Z /\
      wrap 32 false (ntp - clock) = 30000%Z /\
      ((2 ^ 32 - 30000 <= clock)%Z ->
       ntp = (clock + 30000 - 2 ^ 32)%Z /\ (ntp < clock)%Z).
Proof.
  intros clock Hclock. destruct (startup_total clock) as [g Hg].
  exists g. eexists. split; [exact Hg | ].
  split; [initial_of Hg; apply ntpTimer_initial | ].
  change (2 ^ 32)%Z with 4294967296%Z in *.
  split; [apply Z.mod_pos_bound; lia | ].
  split.
  - unfold wrap. change (2 ^ 32)%Z with 4294967296%Z.
    rewrite Zminus_mod_idemp_l.
    replace (clock + 30000 - clock)%Z with 30000%Z by lia. reflexivity.
  - intros Hwrap.
    assert (Hntp : ((clock + 30000) mod 4294967296
                    = clock + 30000 - 4294967296)%Z).
    { symmetry. apply (Z.mod_unique _ _ 1); lia. }
    rewrite Hntp. split; [reflexivity | lia].
Qed.

Lemma ntpTimer_witness_last_millisecond :
  (0 <= 4294967295 < 2 ^ 32)%Z /\
  exists (g : store) (ntp : Z),
    startup 4294967295 = Some g /\
    assoc "ntpTimer" g = Some (CInt 32 false ntp) /\
    (0 <= ntp < 2 ^ 32)%Z /\
    wrap 32 false (ntp - 4294967295) = 30000%Z /\
    ((2 ^ 32 - 30000 <= 4294967295)%Z ->
     ntp = (4294967295 + 30000 - 2 ^ 32)%Z /\ (ntp < 4294967295)%Z).
Proof.
  assert (Hclock : (0 <= 4294967295 < 2 ^ 32)%Z)
    by (split; vm_compute; congruence).
  split; [exact Hclock | ].
  exact (ntpTimer_is_30000_ahead_modulo_2_32 4294967295 Hclock).
Defined.

(** X7. [noWords] has [MAX_NO_NO_WORDS + 1] = 21 slots, all empty strings at
    startup: the indices 0 to [MAX_NO_NO_WORDS] are inside the array and no
    other is. *)
Theorem noWords_has_one_slot_more_than_MAX_NO_NO_WORDS :
  forall clock : Z,
  exists (g : store) (words : list string),
    startup clock = Some g /\
    assoc "noWords" g = Some (CStrings words) /\
    eval_expr clock (Name "MAX_NO_NO_WORDS") = Some (VInt 20) /\
    length words = 21 /\
    (forall i : nat, i <= 20 -> nth_error words i = Some "") /\
    (forall i : nat, 20 < i -> nth_error words i = None).
Proof.
  intros clock. destruct (startup_total clock) as [g Hg].
  exists g. eexists. split; [exact Hg | ].
  split; [initial_of Hg; reflexivity | ].
  do 2 (split; [reflexivity | ]).
  split.
  - intros i Hi. do 21 (destruct i as [ | i]; [reflexivity | ]). lia.
  - intros i Hi. apply nth_error_None. simpl. lia.
Qed.

(** X8. [flashMode] has five entries: the four flash modes at the indices 0 to
    3 and the sentinel ["Unknown"] at index 4 and nowhere else; an index
    above 4 is outside the table. *)
Theorem flashMode_has_five_entries :
  forall clock : Z,
  exists (g : store) (modes : list string),
    startup clock = Some g /\
    assoc "flashMode" g = Some (CTable modes) /\
    modes = ["QIO"; "QOUT"; "DIO"; "DOUT"; "Unknown"] /\
    (forall i : nat, i <= 4 ->
       exists s : string, nth_error modes i = Some s /\ s <> "") /\
    (forall i : nat, 4 < i -> nth_error modes i = None) /\
    (forall i : nat, nth_error modes i = Some "Unknown" <-> i = 4).
Proof.
  intros clock. destruct (startup_total clock) as [g Hg].
  exists g. eexists. split; [exact Hg | ].
  split; [initial_of Hg; reflexivity | ].
  split; [reflexivity | ].
  split; [ | split].
  - intros i Hi.
    do 5 (destruct i as [ | i];
          [eexists; split; [reflexivity | discriminate] | ]).
    lia.
  - intros i Hi. apply nth_error_None. simpl. lia.
  - intros i.
    do 5 (destruct i as [ | i];
          [simpl; split; intros H; (reflexivity || discriminate H) | ]).
    simpl. destruct i; split; intros H; discriminate H.
Qed.

(** X9. The header declares one display object, [P]; its constructor gets the
    values of [HARDWARE_TYPE], [CS_PIN] and [MAX_DEVICES]: the FC16 hardware
    variant, chip-select pin 15 and a chain of 8 devices. *)
Theorem display_is_an_FC16_chain_of_8_on_pin_15 :
  instances_of "MD_Parola"
  = [Global (t_class "MD_Parola") "P" Scalar
       (Ctor [Name "HARDWARE_TYPE"; Name "CS_PIN"; Name "MAX_DEVICES"])] /\
  forall clock : Z,
  exists g : store,
    startup clock = Some g /\
    assoc "P" g
    = Some (CObject "MD_Parola"
              [VSym "MD_MAX72XX" "FC16_HW"; VInt 15; VInt 8]).
Proof.
  split; [reflexivity | ].
  intros clock. destruct (startup_total clock) as [g Hg].
  exists g. split; [exact Hg | ].
  initial_of Hg. reflexivity.
Qed.
